(** * TLV wire elements of ndn-cpp: [Block] (src/encoding/block.hpp)

    A shallow embedding of the [ndn::Block] class and its inline member
    functions, followed by the properties of the element abstraction.

    Conventions of the embedding:
    - [uint32_t], [uint64_t] and [size_t] values are binary naturals [N];
    - a [ConstBufferPtr] is an optional immutable byte list ([None] is the
      null [shared_ptr]);
    - a [Buffer::const_iterator] is either value-initialised ([singular]) or
      a position in the backing buffer;
    - an [element_iterator] is an index in the child vector, [end()] being
      its length;
    - a member function that may throw returns [exn + A]; a member function
      that is not [const] is a state transformer over [*this]. *)

From Stdlib Require Import String Ascii DecimalString.
From Stdlib.Strings Require Import Byte.
From Stdlib Require Import NArith ZArith List Bool Lia.
Import ListNotations.

Local Open Scope N_scope.

(** ** Exceptions *)

(** The decode failures of the wire format (thrown from the TLV codec). *)
Inductive decode_error : Type :=
| MalformedHeader
| LengthOverrun
| LengthUnderrun.

(** [Block::Error] carries the [what] string of [std::runtime_error]. *)
Inductive exn : Type :=
| Error (what : string)
| TlvError (kind : decode_error).

Definition result (A : Type) : Type := (exn + A)%type.

Definition ok {A : Type} (a : A) : result A := inr a.
Definition throw {A : Type} (e : exn) : result A := inl e.

(** ** Buffers and positions *)

Definition Buffer : Type := list byte.

(** [ConstBufferPtr]: a shared pointer to an immutable buffer. *)
Definition ConstBufferPtr : Type := option Buffer.

(** [Buffer::const_iterator]. *)
Inductive const_iterator : Type :=
| singular
| at_pos (pos : nat).

Definition const_iterator_eqb (i j : const_iterator) : bool :=
  match i, j with
  | singular, singular => true
  | at_pos a, at_pos b => Nat.eqb a b
  | _, _ => false
  end.

(** [j - i] converted to [size_t].  Both operands of every subtraction in
    the class are positions of the same buffer.  Two value-initialised
    iterators are equal and are given the difference 0; subtracting a
    position and a value-initialised iterator is undefined in C++, no
    constructor produces such a pair, and it is given 0 as well. *)
Definition const_iterator_diff (j i : const_iterator) : N :=
  match j, i with
  | at_pos b, at_pos a => Z.to_N ((Z.of_nat b - Z.of_nat a) mod 2 ^ 64)
  | _, _ => 0
  end.

(** [std::numeric_limits<uint32_t>::max()]. *)
Definition uint32_max : N := 4294967295.

(** [boost::lexical_cast<std::string>] of an unsigned number. *)
Definition lexical_cast (n : N) : string := NilEmpty.string_of_uint (N.to_uint n).

(** ** The class *)

#[local] Unset Elimination Schemes.

Inductive Block : Type := mkBlock {
  m_buffer : ConstBufferPtr;
  m_type : N;
  m_begin : const_iterator;
  m_end : const_iterator;
  m_size : N;
  m_value_begin : const_iterator;
  m_value_end : const_iterator;
  m_subBlocks : list Block
}.

#[local] Set Elimination Schemes.

(** [element_container], [element_iterator] and [element_const_iterator]:
    a vector of elements and an index in it. *)
Definition element_container : Type := list Block.
Definition element_iterator : Type := nat.

(** A member function that is not [const]: the new [*this] and the outcome. *)
Definition method (A : Type) : Type := Block -> Block * result A.

Module Block.

Definition wire_buffer_empty : string := "Underlying wire buffer is empty".

Definition empty (this : Block) : bool :=
  m_type this =? uint32_max.

Definition hasWire (this : Block) : bool :=
  match m_buffer this with
  | Some _ => negb (const_iterator_eqb (m_begin this) (m_end this))
  | None => false
  end.

Definition hasValue (this : Block) : bool :=
  match m_buffer this with
  | Some _ => true
  | None => false
  end.

Definition reset (this : Block) : Block :=
  {| m_buffer := None;
     m_type := uint32_max;
     m_begin := singular;
     m_end := singular;
     m_size := m_size this;
     m_value_begin := singular;
     m_value_end := singular;
     m_subBlocks := [] |}.

Definition type (this : Block) : N := m_type this.

Definition get_error (type : N) : exn :=
  Error ("(Block::get) Requested a non-existed type [" ++ lexical_cast type
         ++ "] from Block")%string.

(** The loop of both [get] overloads, from iterator [i] to the end. *)
Fixpoint get_loop (type : N) (i : list Block) : result Block :=
  match i with
  | [] => throw (get_error type)
  | x :: i' => if Block.type x =? type then ok x else get_loop type i'
  end.

(** [const Block& get(uint32_t) const]. *)
Definition get_const (type : N) (this : Block) : result Block :=
  get_loop type (m_subBlocks this).

(** [Block& get(uint32_t)]. *)
Definition get (type : N) : method Block :=
  fun this => (this, get_loop type (m_subBlocks this)).

(** The loop of both [find] overloads: [i] is the current position and
    [rest] the elements from it on; [None] when the loop runs to the end. *)
Fixpoint find_loop (type : N) (i : element_iterator) (rest : list Block)
  : option element_iterator :=
  match rest with
  | [] => None
  | x :: rest' => if Block.type x =? type then Some i else find_loop type (S i) rest'
  end.

Definition element_begin (this : Block) : element_iterator := 0%nat.

Definition element_end (this : Block) : element_iterator :=
  length (m_subBlocks this).

(** [element_const_iterator find(uint32_t) const]. *)
Definition find_const (type : N) (this : Block) : element_iterator :=
  match find_loop type (element_begin this) (m_subBlocks this) with
  | Some i => i
  | None => element_end this
  end.

(** [element_iterator find(uint32_t)]. *)
Definition find (type : N) : method element_iterator :=
  fun this =>
    (this,
     ok (match find_loop type (element_begin this) (m_subBlocks this) with
         | Some i => i
         | None => element_end this
         end)).

(** The loop of [remove]: [newContainer] grows by [push_back]. *)
Fixpoint remove_loop (type : N) (i : list Block) (newContainer : element_container)
  : element_container :=
  match i with
  | [] => newContainer
  | x :: i' =>
      remove_loop type i'
        (if negb (Block.type x =? type) then newContainer ++ [x] else newContainer)
  end.

Definition set_subBlocks (this : Block) (c : element_container) : Block :=
  {| m_buffer := m_buffer this;
     m_type := m_type this;
     m_begin := m_begin this;
     m_end := m_end this;
     m_size := m_size this;
     m_value_begin := m_value_begin this;
     m_value_end := m_value_end this;
     m_subBlocks := c |}.

Definition remove (type : N) (this : Block) : Block :=
  set_subBlocks this (remove_loop type (m_subBlocks this) []).

(** [erase(position)]: the vector without the element at [position]; the
    returned iterator designates the element that followed it.  A position
    past the last element is undefined in C++; here it removes nothing. *)
Definition erase (position : element_iterator) (this : Block)
  : Block * element_iterator :=
  (set_subBlocks this
     (firstn position (m_subBlocks this) ++ skipn (S position) (m_subBlocks this)),
   position).

(** [erase(first, last)]. *)
Definition erase_range (first last : element_iterator) (this : Block)
  : Block * element_iterator :=
  (set_subBlocks this
     (firstn first (m_subBlocks this) ++ skipn last (m_subBlocks this)),
   first).

Definition push_back (element : Block) (this : Block) : Block :=
  set_subBlocks this (m_subBlocks this ++ [element]).

Definition getAll (this : Block) : element_container := m_subBlocks this.

Definition elements (this : Block) : element_container := m_subBlocks this.

Definition begin (this : Block) : result const_iterator :=
  if negb (hasWire this) then throw (Error wire_buffer_empty)
  else ok (m_begin this).

Definition end_ (this : Block) : result const_iterator :=
  if negb (hasWire this) then throw (Error wire_buffer_empty)
  else ok (m_end this).

Definition size (this : Block) : result N :=
  if hasWire this || hasValue this then ok (m_size this)
  else throw (Error "Block size cannot be determined (undefined block size)").

Definition value_begin (this : Block) : result const_iterator :=
  if negb (hasValue this)
  then throw (Error "(Block::value_begin) Underlying value buffer is empty")
  else ok (m_value_begin this).

Definition value_end (this : Block) : result const_iterator :=
  if negb (hasValue this)
  then throw (Error "(Block::value_end) Underlying value buffer is empty")
  else ok (m_value_end this).

(** [&*m_begin]: the address of the byte at [m_begin], given as the
    position it has in the buffer. *)
Definition wire (this : Block) : result const_iterator :=
  if negb (hasWire this)
  then throw (Error "(Block::wire) Underlying wire buffer is empty")
  else ok (m_begin this).

Definition value (this : Block) : result const_iterator :=
  if negb (hasValue this)
  then throw (Error "(Block::value) Underlying value buffer is empty")
  else ok (m_value_begin this).

Definition value_size (this : Block) : N :=
  if negb (hasValue this) then 0
  else const_iterator_diff (m_value_end this) (m_value_begin this).

End Block.

(** ** The TLV codec and the members defined outside the header

    The header only declares the constructors, [parse] and [encode], which
    [block.cpp] defines, and relies on the VarNumber codec of [tlv.hpp].
    The definitions of this part follow the specification of the wire
    format and of the construction, [parse] and [encode] operations. *)

Notation "'let*' x ':=' c 'in' k" :=
  (match c with inl e => inl e | inr x => k end)
  (at level 10, x pattern, c at level 100, k at level 200, only parsing).

(** The bytes of [buffer] between two positions. *)
Definition slice (buffer : Buffer) (b e : nat) : list byte :=
  firstn (e - b) (skipn b buffer).

Definition range (buffer : Buffer) (i j : const_iterator) : list byte :=
  match i, j with
  | at_pos b, at_pos e => slice buffer b e
  | _, _ => []
  end.

(** Conversion of a length to the 32-bit [m_size] member. *)
Definition to_uint32 (n : N) : N := n mod 2 ^ 32.

Module Tlv.

Definition byte_of_N (n : N) : byte :=
  match Byte.of_N (n mod 256) with
  | Some b => b
  | None => x00
  end.

(** [k] bytes, most significant first. *)
Fixpoint big_endian (k : nat) (n : N) : list byte :=
  match k with
  | O => []
  | S k' => big_endian k' (n / 256) ++ [byte_of_N n]
  end.

Definition big_endian_value (l : list byte) : N :=
  fold_left (fun acc b => acc * 256 + Byte.to_N b) l 0.

(** Modelled from the spec: the VarNumber encoder of tlv.hpp, which is
    missing.  Values 0-252 are one byte; up to 65535, [0xFD] and two bytes;
    up to 2^32-1, [0xFE] and four bytes; larger ones, [0xFF] and eight
    bytes, all big-endian. *)
Definition writeVarNumber (n : N) : list byte :=
  if n <=? 252 then [byte_of_N n]
  else if n <=? 65535 then xfd :: big_endian 2 n
  else if n <=? 4294967295 then xfe :: big_endian 4 n
  else xff :: big_endian 8 n.

(** Modelled from the spec: the size of a VarNumber (tlv.hpp, missing). *)
Definition sizeOfVarNumber (n : N) : N :=
  if n <=? 252 then 1
  else if n <=? 65535 then 3
  else if n <=? 4294967295 then 5
  else 9.

(** The decoder on the bytes that remain: the value and the number of bytes
    consumed, or nothing when the bytes end too early. *)
Definition decodeVarNumber (bytes : list byte) : option (N * nat) :=
  match bytes with
  | [] => None
  | first :: rest =>
      let v := Byte.to_N first in
      if v <=? 252 then Some (v, 1%nat)
      else
        let k := if v =? 253 then 2%nat else if v =? 254 then 4%nat else 8%nat in
        if (length rest <? k)%nat then None
        else Some (big_endian_value (firstn k rest), S k)
  end.

(** Modelled from the spec: the VarNumber decoder of tlv.hpp, which is
    missing: decode(buffer, position) gives the value and the bytes
    consumed, or a truncation error.  [end_] bounds the bytes that may be
    read and [truncated] is the error of the caller for a header that ends
    too early. *)
Definition readVarNumber (truncated : decode_error) (buffer : Buffer) (begin end_ : nat)
  : result (N * nat) :=
  match decodeVarNumber (slice buffer begin end_) with
  | Some r => ok r
  | None => throw (TlvError truncated)
  end.

(** Modelled from the spec: reading a type code (tlv.hpp, missing).  The type
    of an element is a 32-bit code; a VarNumber beyond it is an invalid
    header. *)
Definition readType (truncated : decode_error) (buffer : Buffer) (begin end_ : nat)
  : result (N * nat) :=
  let* (type, n) := readVarNumber truncated buffer begin end_ in
  if type <=? uint32_max then ok (type, n)
  else throw (TlvError MalformedHeader).

End Tlv.

Module BlockImpl.

(** Modelled from the spec: the header detection shared by the decoding
    constructors and by [parse] (block.cpp, missing).  The header at [begin]
    gives the type, the length and the value range; the wire range is the
    header and the value; a length that runs past [end_] is an overrun. *)
Definition decode_header (truncated : decode_error) (buffer : Buffer) (begin end_ : nat)
  : result Block :=
  let* (type, n1) := Tlv.readType truncated buffer begin end_ in
  let* (len, n2) := Tlv.readVarNumber truncated buffer (begin + n1) end_ in
  let value_begin := (begin + n1 + n2)%nat in
  if N.of_nat (end_ - value_begin) <? len then throw (TlvError LengthOverrun)
  else
    let value_end := (value_begin + N.to_nat len)%nat in
    ok {| m_buffer := Some buffer;
          m_type := type;
          m_begin := at_pos begin;
          m_end := at_pos value_end;
          m_size := to_uint32 (N.of_nat (value_end - begin));
          m_value_begin := at_pos value_begin;
          m_value_end := at_pos value_end;
          m_subBlocks := [] |}.

(** Modelled from the spec: [Block::Block()] (block.cpp, missing): the empty
    element, with no buffer, no ranges and no children. *)
Definition Block_default : Block :=
  {| m_buffer := None;
     m_type := uint32_max;
     m_begin := singular;
     m_end := singular;
     m_size := 0;
     m_value_begin := singular;
     m_value_end := singular;
     m_subBlocks := [] |}.

(** Modelled from the spec: [Block::Block(const ConstBufferPtr&)] (block.cpp,
    missing): the header is read at the start of the buffer. *)
Definition Block_buffer (buffer : Buffer) : result Block :=
  decode_header MalformedHeader buffer 0 (length buffer).




(** Modelled from the spec: [Block::Block(wire, type, begin, end, valueBegin,
    valueEnd)] (block.cpp, missing): no parsing, the boundaries are taken
    from the caller. *)
Definition Block_wire (wire : Buffer) (type : N)
    (begin end_ valueBegin valueEnd : const_iterator) : Block :=
  {| m_buffer := Some wire;
     m_type := type;
     m_begin := begin;
     m_end := end_;
     m_size := to_uint32 (const_iterator_diff end_ begin);
     m_value_begin := valueBegin;
     m_value_end := valueEnd;
     m_subBlocks := [] |}.

(** Modelled from the spec: [Block::Block(uint32_t)] (block.cpp, missing): a
    container with no buffer and no wire range. *)
Definition Block_type (type : N) : Block :=
  {| m_buffer := None;
     m_type := type;
     m_begin := singular;
     m_end := singular;
     m_size := to_uint32 (Tlv.sizeOfVarNumber type + Tlv.sizeOfVarNumber 0);
     m_value_begin := singular;
     m_value_end := singular;
     m_subBlocks := [] |}.

(** Modelled from the spec: [Block::Block(uint32_t, const ConstBufferPtr&)]
    (block.cpp, missing): the buffer holds the value only; the header is not
    materialised, so the wire range is degenerate. *)
Definition Block_type_value (type : N) (value : Buffer) : Block :=
  let n := N.of_nat (length value) in
  {| m_buffer := Some value;
     m_type := type;
     m_begin := at_pos (length value);
     m_end := at_pos (length value);
     m_size := to_uint32 (Tlv.sizeOfVarNumber type + Tlv.sizeOfVarNumber n + n);
     m_value_begin := at_pos 0;
     m_value_end := at_pos (length value);
     m_subBlocks := [] |}.

(** Modelled from the spec: [Block::Block(uint32_t, const Block&)] (block.cpp,
    missing): the wire form of [value] becomes the value of the new element. *)
Definition Block_type_block (type : N) (value : Block) : result Block :=
  let* b := Block.begin value in
  let* e := Block.end_ value in
  let n := const_iterator_diff e b in
  ok {| m_buffer := m_buffer value;
        m_type := type;
        m_begin := e;
        m_end := e;
        m_size := to_uint32 (Tlv.sizeOfVarNumber type + Tlv.sizeOfVarNumber n + n);
        m_value_begin := b;
        m_value_end := e;
        m_subBlocks := [] |}.


Definition wire_bytes (this : Block) : list byte :=
  match m_buffer this with
  | Some buffer => range buffer (m_begin this) (m_end this)
  | None => []
  end.

(** The loop of [parse]: while the range from the cursor [begin] to [end_] is
    not empty, a header is decoded at the cursor, the child is appended and
    the cursor moves past its value.  A failure keeps the children
    accumulated before it.  [fuel] bounds the number of rounds. *)
Fixpoint parse_loop (fuel : nat) (buffer : Buffer) (begin end_ : nat)
    (subBlocks : element_container) : element_container * result unit :=
  if (begin <? end_)%nat then
    match fuel with
    | O => (subBlocks, throw (TlvError LengthUnderrun))
    | S fuel' =>
        match decode_header LengthUnderrun buffer begin end_ with
        | inl e => (subBlocks, throw e)
        | inr child =>
            match m_end child with
            | at_pos element_end =>
                parse_loop fuel' buffer element_end end_ (subBlocks ++ [child])
            | singular => (subBlocks, throw (TlvError LengthUnderrun))
            end
        end
    end
  else (subBlocks, ok tt).

(** Modelled from the spec: [Block::parse] (block.cpp, missing).  One level of
    the value range is expanded: while the range is not empty a header is
    decoded at the cursor, a child over the same buffer is appended to the
    children and the cursor moves past its value.  The children are not
    parsed themselves.  An element without a buffer has no value range to
    expand. *)
Definition parse : method unit :=
  fun this =>
    match m_buffer this, m_value_begin this, m_value_end this with
    | Some buffer, at_pos begin, at_pos end_ =>
        let (subBlocks, r) :=
          parse_loop (end_ - begin) buffer begin end_ (m_subBlocks this) in
        (Block.set_subBlocks this subBlocks, r)
    | _, _, _ => (this, ok tt)
    end.

(** The element over a freshly serialised buffer [header ++ value]. *)
Definition assign_wire (type : N) (header value : list byte)
    (subBlocks : element_container) : Block :=
  let buffer := header ++ value in
  {| m_buffer := Some buffer;
     m_type := type;
     m_begin := at_pos 0;
     m_end := at_pos (length buffer);
     m_size := to_uint32 (N.of_nat (length buffer));
     m_value_begin := at_pos (length header);
     m_value_end := at_pos (length buffer);
     m_subBlocks := subBlocks |}.

(** The type and the length of a value, as VarNumbers. *)
Definition header_bytes (type : N) (value : list byte) : list byte :=
  Tlv.writeVarNumber type ++ Tlv.writeVarNumber (N.of_nat (length value)).

(** Modelled from the spec: [Block::encode] (block.cpp, missing).  An element
    with a wire form is left as it is.  Otherwise the type, the length of
    the value and the value are written to a new buffer, the value being the
    value buffer of the element or, for an element without one, the
    encodings of its children, each encoded first; the buffer and the ranges
    are then those of the new buffer. *)
Fixpoint encode (this : Block) : Block :=
  match this with
  | mkBlock buffer type b e _ vb ve subBlocks =>
      if Block.hasWire this then this
      else
        match buffer with
        | Some buf =>
            let value := range buf vb ve in
            assign_wire type (header_bytes type value) value subBlocks
        | None =>
            let subBlocks' := map encode subBlocks in
            let value := concat (map wire_bytes subBlocks') in
            assign_wire type (header_bytes type value) value subBlocks'
        end
  end.




End BlockImpl.

(** ** Specification predicates *)

(** No element of the list has type [t]. *)
Definition absent (t : N) (l : list Block) : Prop :=
  Forall (fun x => Block.type x <> t) l.

(** [c] is the first element of type [t] of [l], at index [k]. *)
Definition first_match (t : N) (l : list Block) (k : nat) (c : Block) : Prop :=
  exists pre post,
    l = pre ++ c :: post /\ length pre = k /\ Block.type c = t /\ absent t pre.

Import BlockImpl.

(** What a successful header detection has read. *)
Record header_at (buffer : Buffer) (begin end_ : nat)
    (type : N) (n1 n2 : nat) (len : N) : Prop := {
  header_type : Tlv.decodeVarNumber (slice buffer begin end_) = Some (type, n1);
  header_type_range : type <= uint32_max;
  header_length :
    Tlv.decodeVarNumber (slice buffer (begin + n1) end_) = Some (len, n2);
  header_fits : len <= N.of_nat (end_ - (begin + n1 + n2))
}.

(** The element that header detection builds. *)
Definition decoded (buffer : Buffer) (begin : nat) (type : N) (n : nat) (len : N)
  : Block :=
  {| m_buffer := Some buffer;
     m_type := type;
     m_begin := at_pos begin;
     m_end := at_pos (begin + n + N.to_nat len);
     m_size := to_uint32 (N.of_nat (begin + n + N.to_nat len - begin));
     m_value_begin := at_pos (begin + n);
     m_value_end := at_pos (begin + n + N.to_nat len);
     m_subBlocks := [] |}.

(** Three elements to run the definitions on: the bytes [05 00] given by
    their boundaries, the same element wrapped under type 7, and the
    element read from [05 00 09], whose last byte is not part of it. *)
Definition wire_example : Block :=
  Block_wire [x05; x00] 5 (at_pos 0) (at_pos 2) (at_pos 2) (at_pos 2).

Definition nested_example : Block :=
  match Block_type_block 7 wire_example with
  | inr b => b
  | inl _ => Block_default
  end.

Definition trailing_example : Block := decoded [x05; x00; x09] 0 5 2 0.

(** A type-5 container with a type-1 child of three bytes and a type-2 child
    of none: the children take five and two bytes, so the value is seven
    bytes long. *)
Definition scenario : Block :=
  Block.push_back (Block_type_value 2 [])
    (Block.push_back (Block_type_value 1 [x01; x02; x03]) (Block_type 5)).

(** The encoding of the scenario, as a decoder returns it. *)
Definition scenario_wire : Block :=
  decoded [x05; x07; x01; x03; x01; x02; x03; x02; x00] 0 5 2 7.

(** The number of elements of type [t] in a list. *)
Definition count_type (t : N) (l : list Block) : nat :=
  length (filter (fun c => Block.type c =? t) l).

(** Two elements that differ at most in their children: the same members
    otherwise, and the same answer from every accessor of the buffer. *)
Definition same_wire (a b : Block) : Prop :=
  m_buffer a = m_buffer b /\
  m_type a = m_type b /\
  m_begin a = m_begin b /\
  m_end a = m_end b /\
  m_size a = m_size b /\
  m_value_begin a = m_value_begin b /\
  m_value_end a = m_value_end b /\
  Block.empty a = Block.empty b /\
  Block.hasWire a = Block.hasWire b /\
  Block.hasValue a = Block.hasValue b /\
  Block.size a = Block.size b /\
  Block.begin a = Block.begin b /\
  Block.end_ a = Block.end_ b /\
  Block.wire a = Block.wire b /\
  Block.value a = Block.value b /\
  Block.value_begin a = Block.value_begin b /\
  Block.value_end a = Block.value_end b /\
  Block.value_size a = Block.value_size b.

(** The wire format in the words of the specification: an element is its
    type, the length of its value and the value, and a value is either
    opaque bytes or the encodings of nested elements, in order. *)
#[local] Unset Elimination Schemes.

Inductive tlv : Type :=
| TlvValue (type : N) (value : list byte)
| TlvNode (type : N) (children : list tlv).

#[local] Set Elimination Schemes.


Definition tlv_children (t : tlv) : list tlv :=
  match t with
  | TlvValue _ _ => []
  | TlvNode _ children => children
  end.






(** * Properties *)

(** ** Running the definitions *)

Example scenario_encode :
  wire_bytes (encode scenario) = [x05; x07; x01; x03; x01; x02; x03; x02; x00].
Proof. vm_compute. reflexivity. Qed.

Example scenario_decode :
  Block_buffer [x05; x07; x01; x03; x01; x02; x03; x02; x00] = ok scenario_wire.
Proof. reflexivity. Qed.

Example scenario_parse :
  snd (parse scenario_wire) = ok tt /\
  map (fun c => (Block.type c, Block.value_size c))
    (m_subBlocks (fst (parse scenario_wire)))
  = [(1, 3); (2, 0)].
Proof. vm_compute. split; reflexivity. Qed.

Example trailing_decode : Block_buffer [x05; x00; x09] = ok trailing_example.
Proof. reflexivity. Qed.

Example nested_construct : Block_type_block 7 wire_example = ok nested_example.
Proof. reflexivity. Qed.


(** ** The search loops of [get] and [find] *)

Section Search.

Variable t : N.


Lemma absent_In (l : list Block) :
  absent t l <-> (forall c, In c l -> Block.type c <> t).
Proof. apply Forall_forall. Qed.

Lemma absent_elim (l : list Block) (c : Block) :
  absent t l -> In c l -> Block.type c <> t.
Proof. intros H. now apply absent_In. Qed.

Lemma absent_intro (l : list Block) :
  (forall c, In c l -> Block.type c <> t) -> absent t l.
Proof. apply absent_In. Qed.

Lemma first_match_here (c : Block) (l : list Block) :
  Block.type c = t -> first_match t (c :: l) 0 c.
Proof.
  intros Hc. exists [], l. repeat split; trivial. constructor.
Qed.

Lemma first_match_later (x c : Block) (l : list Block) (k : nat) :
  Block.type x <> t -> first_match t l k c -> first_match t (x :: l) (S k) c.
Proof.
  intros Hx (pre & post & -> & <- & Hc & Hpre).
  exists (x :: pre), post. repeat split; trivial. now constructor.
Qed.

Lemma first_match_unique (l : list Block) (k k' : nat) (c c' : Block) :
  first_match t l k c -> first_match t l k' c' -> k = k' /\ c = c'.
Proof.
  revert k k'. induction l as [|x l IH]; intros k k' (pre & post & E & Hk & Hc & Hp)
    (pre' & post' & E' & Hk' & Hc' & Hp').
  - destruct pre; discriminate.
  - destruct pre as [|y pre], pre' as [|y' pre']; simpl in *.
    + injection E as <- _. injection E' as <- _. subst. auto.
    + injection E as <- _. injection E' as <- _.
      inversion Hp' as [|? ? Hy _]. contradiction.
    + injection E as <- _. injection E' as <- _.
      inversion Hp as [|? ? Hy _]. contradiction.
    + injection E as <- E. injection E' as _ E'.
      inversion Hp; inversion Hp'; subst.
      destruct (IH (length pre) (length pre')) as [Hl ->].
      * exists pre, post. auto.
      * exists pre', post'. auto.
      * auto.
Qed.

Lemma first_match_absent (l : list Block) (k : nat) (c : Block) :
  first_match t l k c -> ~ absent t l.
Proof.
  intros (pre & post & -> & _ & Hc & _) H.
  apply Forall_app in H as [_ H]. inversion H; contradiction.
Qed.

Lemma get_loop_spec (l : list Block) :
  match Block.get_loop t l with
  | inr c => exists k, first_match t l k c
  | inl e => e = Block.get_error t /\ absent t l
  end.
Proof.
  induction l as [|x l IH]; simpl.
  - split; [reflexivity | constructor].
  - destruct (N.eqb_spec (Block.type x) t) as [Hx|Hx].
    + exists 0%nat. now apply first_match_here.
    + destruct (Block.get_loop t l) as [e|c].
      * destruct IH as [-> IH]. split; [reflexivity | now constructor].
      * destruct IH as [k IH]. exists (S k). now apply first_match_later.
Qed.

Lemma find_loop_spec (l : list Block) (i : nat) :
  match Block.find_loop t i l with
  | Some j => exists k c, j = (i + k)%nat /\ first_match t l k c
  | None => absent t l
  end.
Proof.
  revert i. induction l as [|x l IH]; intros i; simpl.
  - constructor.
  - destruct (N.eqb_spec (Block.type x) t) as [Hx|Hx].
    + exists 0%nat, x. split; [lia | now apply first_match_here].
    + specialize (IH (S i)). destruct (Block.find_loop t (S i) l) as [j|].
      * destruct IH as (k & c & -> & IH). exists (S k), c.
        split; [lia | now apply first_match_later].
      * now constructor.
Qed.

Lemma first_match_nth (l : list Block) (k : nat) (c : Block) :
  first_match t l k c -> nth_error l k = Some c /\ (k < length l)%nat.
Proof.
  intros (pre & post & -> & <- & _ & _). split.
  - rewrite nth_error_app2 by lia. now rewrite Nat.sub_diag.
  - rewrite length_app. simpl. lia.
Qed.

End Search.

(** ** The loop of [remove] *)

Lemma remove_loop_filter (t : N) (l acc : list Block) :
  Block.remove_loop t l acc
  = acc ++ filter (fun c => negb (Block.type c =? t)) l.
Proof.
  revert acc. induction l as [|x l IH]; intros acc; simpl.
  - now rewrite app_nil_r.
  - rewrite IH. destruct (negb (Block.type x =? t)); trivial.
    now rewrite <- app_assoc.
Qed.

Lemma filter_absent (t : N) (l : list Block) :
  absent t l -> filter (fun c => negb (Block.type c =? t)) l = l.
Proof.
  induction 1 as [|x l Hx _ IH]; simpl; trivial.
  apply N.eqb_neq in Hx. rewrite Hx. simpl. now rewrite IH.
Qed.

(** ** Lookup *)

(** C3: [get(t)] returns the first child of type [t] in insertion order when
    there is one, throws the not-found error exactly when no child has type
    [t], and leaves the element, hence its child list, as it was.  Both
    overloads agree. *)
Theorem get_first_or_not_found (this : Block) (t : N) :
  (forall c, In c (m_subBlocks this) -> Block.type c = t ->
     exists k c', first_match t (m_subBlocks this) k c'
                  /\ Block.get_const t this = ok c') /\
  (forall c, Block.get_const t this = ok c ->
     exists k, first_match t (m_subBlocks this) k c) /\
  ((exists e, Block.get_const t this = throw e)
     <-> (forall c, In c (m_subBlocks this) -> Block.type c <> t)) /\
  (forall e, Block.get_const t this = throw e -> e = Block.get_error t) /\
  Block.get t this = (this, Block.get_const t this) /\
  m_subBlocks (fst (Block.get t this)) = m_subBlocks this.
Proof.
  unfold Block.get_const, Block.get, ok, throw.
  pose proof (get_loop_spec t (m_subBlocks this)) as H.
  destruct (Block.get_loop t (m_subBlocks this)) as [e|c0].
  - destruct H as [-> Habs]. split; [| split; [| split; [| split; [| split]]]].
    + intros c Hin Hc. now destruct (absent_elim _ _ _ Habs Hin).
    + discriminate.
    + split.
      * intros _ c Hin. exact (absent_elim _ _ _ Habs Hin).
      * intros _. now exists (Block.get_error t).
    + now intros e [= <-].
    + reflexivity.
    + reflexivity.
  - destruct H as [k Hk]. split; [| split; [| split; [| split; [| split]]]].
    + intros c _ _. now exists k, c0.
    + intros c [= <-]. now exists k.
    + split.
      * intros [e He]. discriminate.
      * intros Habs. apply absent_intro in Habs.
        destruct (first_match_absent _ _ _ _ Hk Habs).
    + discriminate.
    + reflexivity.
    + reflexivity.
Qed.

(** In the scenario the child of type 2 is found and no child has type 9. *)
Lemma get_first_or_not_found_witness :
  (exists k c', first_match 2 (m_subBlocks scenario) k c'
                /\ Block.get_const 2 scenario = ok c') /\
  (exists e, Block.get_const 9 scenario = throw e).
Proof.
  split.
  - destruct (get_first_or_not_found scenario 2) as (H & _).
    apply (H (Block_type_value 2 [])); [simpl; auto | reflexivity].
  - destruct (get_first_or_not_found scenario 9) as (_ & _ & [_ H] & _).
    apply H. intros c [<-|[<-|[]]]; discriminate.
Defined.

(** C4: [find(t)] makes the search of [get(t)] and never throws: it gives the
    position of the first child of type [t], the one [get(t)] returns, and
    [element_end()] when no child has type [t]. *)
Theorem find_first_or_end (this : Block) (t : N) :
  (forall c, Block.get_const t this = ok c ->
     first_match t (m_subBlocks this) (Block.find_const t this) c
     /\ nth_error (m_subBlocks this) (Block.find_const t this) = Some c
     /\ (Block.find_const t this < Block.element_end this)%nat) /\
  (forall c, In c (m_subBlocks this) -> Block.type c = t ->
     exists c', first_match t (m_subBlocks this) (Block.find_const t this) c') /\
  ((forall c, In c (m_subBlocks this) -> Block.type c <> t)
     <-> Block.find_const t this = Block.element_end this) /\
  ((exists e, Block.get_const t this = throw e)
     <-> Block.find_const t this = Block.element_end this) /\
  Block.find t this = (this, ok (Block.find_const t this)).
Proof.
  unfold Block.get_const, Block.find, Block.find_const, Block.element_begin,
    Block.element_end, ok, throw.
  pose proof (get_loop_spec t (m_subBlocks this)) as H.
  pose proof (find_loop_spec t (m_subBlocks this) 0%nat) as H'.
  destruct (Block.find_loop t 0%nat (m_subBlocks this)) as [j|].
  - destruct H' as (k & c0 & -> & Hk). simpl.
    pose proof (first_match_nth _ _ _ _ Hk) as [Hnth Hlt].
    assert (Hget : Block.get_loop t (m_subBlocks this) = inr c0).
    { destruct (Block.get_loop t (m_subBlocks this)) as [e|c1].
      - destruct H as [_ Habs]. destruct (first_match_absent _ _ _ _ Hk Habs).
      - destruct H as [k' Hk'].
        now destruct (first_match_unique _ _ _ _ _ _ Hk Hk') as [_ <-]. }
    rewrite Hget. split; [| split; [| split; [| split]]].
    + intros c [= <-]. auto.
    + intros c _ _. now exists c0.
    + split.
      * intros Habs. apply absent_intro in Habs.
        destruct (first_match_absent _ _ _ _ Hk Habs).
      * intros E. lia.
    + split.
      * intros [e He]. discriminate.
      * intros E. lia.
    + reflexivity.
  - destruct (Block.get_loop t (m_subBlocks this)) as [e|c1].
    + split; [| split; [| split; [| split]]].
      * discriminate.
      * intros c Hin Hc. now destruct (absent_elim _ _ _ H' Hin).
      * split; trivial. intros _ c Hin. exact (absent_elim _ _ _ H' Hin).
      * split; trivial. intros _. now exists e.
      * reflexivity.
    + destruct H as [k Hk]. destruct (first_match_absent _ _ _ _ Hk H').
Qed.

(** In the scenario the child of type 2 is at position 1, and looking for
    type 9 gives the end. *)
Lemma find_first_or_end_witness :
  nth_error (m_subBlocks scenario) (Block.find_const 2 scenario)
    = Some (Block_type_value 2 []) /\
  Block.find_const 9 scenario = Block.element_end scenario.
Proof.
  split.
  - destruct (find_first_or_end scenario 2) as (H & _).
    apply (H (Block_type_value 2 [])). reflexivity.
  - destruct (find_first_or_end scenario 9) as (_ & _ & [H _] & _).
    apply H. intros c [<-|[<-|[]]]; discriminate.
Defined.

(** C5: after [remove(t)] the children are the former ones whose type
    differs from [t], in their former order; the other members are kept, and
    nothing changes when no child has type [t]. *)
Theorem remove_filters_children (this : Block) (t : N) :
  m_subBlocks (Block.remove t this)
    = filter (fun c => negb (Block.type c =? t)) (m_subBlocks this) /\
  Block.remove t this
    = Block.set_subBlocks this
        (filter (fun c => negb (Block.type c =? t)) (m_subBlocks this)) /\
  ((forall c, In c (m_subBlocks this) -> Block.type c <> t) ->
     m_subBlocks (Block.remove t this) = m_subBlocks this).
Proof.
  unfold Block.remove. rewrite remove_loop_filter. simpl.
  repeat split; trivial.
  intros Habs. apply filter_absent. now apply absent_In.
Qed.

(** Removing type 9 from the scenario keeps both children. *)
Lemma remove_filters_children_witness :
  m_subBlocks (Block.remove 9 scenario) = m_subBlocks scenario.
Proof.
  destruct (remove_filters_children scenario 9) as (_ & _ & H).
  apply H. intros c [<-|[<-|[]]]; discriminate.
Defined.

(** ** Accessors *)

(** C6: without a value buffer [value_size()] is 0, while [value()],
    [value_begin()] and [value_end()] throw; without a wire form [wire()],
    [begin()] and [end()] throw. *)
Theorem accessors_without_buffer (this : Block) :
  (Block.hasValue this = false ->
     Block.value_size this = 0 /\
     Block.value this
       = throw (Error "(Block::value) Underlying value buffer is empty") /\
     Block.value_begin this
       = throw (Error "(Block::value_begin) Underlying value buffer is empty") /\
     Block.value_end this
       = throw (Error "(Block::value_end) Underlying value buffer is empty")) /\
  (Block.hasWire this = false ->
     Block.wire this
       = throw (Error "(Block::wire) Underlying wire buffer is empty") /\
     Block.begin this = throw (Error "Underlying wire buffer is empty") /\
     Block.end_ this = throw (Error "Underlying wire buffer is empty")).
Proof.
  split; intros H.
  - unfold Block.value_size, Block.value, Block.value_begin, Block.value_end.
    rewrite H. simpl. auto.
  - unfold Block.wire, Block.begin, Block.end_.
    rewrite H. simpl. auto.
Qed.

(** A container of type 5 has neither buffer; a value buffer under type 1
    has no wire form. *)
Lemma accessors_without_buffer_witness :
  Block.value_size (Block_type 5) = 0 /\
  Block.value (Block_type 5)
    = throw (Error "(Block::value) Underlying value buffer is empty") /\
  Block.wire (Block_type_value 1 [x01; x02; x03])
    = throw (Error "(Block::wire) Underlying wire buffer is empty").
Proof.
  split; [|split].
  - now apply (accessors_without_buffer (Block_type 5)).
  - now apply (accessors_without_buffer (Block_type 5)).
  - now apply (accessors_without_buffer (Block_type_value 1 [x01; x02; x03])).
Defined.

(** C7: [size()] returns a length exactly when [hasWire()] or [hasValue()]
    holds, and throws when neither does. *)
Theorem size_defined_iff (this : Block) :
  ((exists n, Block.size this = ok n)
     <-> Block.hasWire this || Block.hasValue this = true) /\
  (Block.hasWire this || Block.hasValue this = true ->
     Block.size this = ok (m_size this)) /\
  (Block.hasWire this = false -> Block.hasValue this = false ->
     Block.size this
       = throw (Error "Block size cannot be determined (undefined block size)")).
Proof.
  unfold Block.size.
  destruct (Block.hasWire this), (Block.hasValue this); simpl;
    (split; [split; [intros [n Hn]; now try discriminate | intros H; try discriminate; eauto]
            | split; [intros H; now try discriminate | intros H1 H2; now try discriminate]]).
Qed.

(** A value buffer has a size; a container of type 5 has none. *)
Lemma size_defined_iff_witness :
  Block.size (Block_type_value 1 [x01; x02; x03]) = ok 5 /\
  Block.size (Block_type 5)
    = throw (Error "Block size cannot be determined (undefined block size)").
Proof.
  split.
  - now apply (size_defined_iff (Block_type_value 1 [x01; x02; x03])).
  - now apply (size_defined_iff (Block_type 5)).
Defined.

(** ** State changes *)

(** C8: after [reset()] the element is empty: its type is the sentinel, the
    largest 32-bit code, it has no buffer, so neither a wire form nor a
    value, its positions are value-initialised and it has no children. *)
Theorem reset_gives_empty (this : Block) :
  Block.empty (Block.reset this) = true /\
  Block.type (Block.reset this) = uint32_max /\
  uint32_max = 2 ^ 32 - 1 /\
  m_buffer (Block.reset this) = None /\
  Block.hasWire (Block.reset this) = false /\
  Block.hasValue (Block.reset this) = false /\
  m_subBlocks (Block.reset this) = [] /\
  m_begin (Block.reset this) = singular /\
  m_end (Block.reset this) = singular /\
  m_value_begin (Block.reset this) = singular /\
  m_value_end (Block.reset this) = singular.
Proof.
  unfold Block.empty, Block.type, Block.hasWire, Block.hasValue, Block.reset.
  simpl. repeat split; reflexivity.
Qed.

(** C9: [push_back(element)] appends [element] to the children and changes
    no other member: type, buffer, wire range, value range and size are the
    same, and so is what the accessors give. *)
Theorem push_back_frame (this element : Block) :
  m_subBlocks (Block.push_back element this) = m_subBlocks this ++ [element] /\
  m_type (Block.push_back element this) = m_type this /\
  m_buffer (Block.push_back element this) = m_buffer this /\
  m_begin (Block.push_back element this) = m_begin this /\
  m_end (Block.push_back element this) = m_end this /\
  m_value_begin (Block.push_back element this) = m_value_begin this /\
  m_value_end (Block.push_back element this) = m_value_end this /\
  m_size (Block.push_back element this) = m_size this /\
  Block.hasWire (Block.push_back element this) = Block.hasWire this /\
  Block.hasValue (Block.push_back element this) = Block.hasValue this /\
  Block.size (Block.push_back element this) = Block.size this /\
  Block.begin (Block.push_back element this) = Block.begin this /\
  Block.end_ (Block.push_back element this) = Block.end_ this /\
  Block.value_begin (Block.push_back element this) = Block.value_begin this /\
  Block.value_end (Block.push_back element this) = Block.value_end this /\
  Block.value_size (Block.push_back element this) = Block.value_size this.
Proof.
  destruct this as [buffer type b e sz vb ve subBlocks].
  unfold Block.push_back, Block.set_subBlocks. simpl.
  repeat split; reflexivity.
Qed.

(** C10: an element with a wire form has a value buffer, since both tests
    ask for the buffer; so whenever a wire accessor returns, the value
    accessors return too. *)
Theorem hasWire_implies_hasValue (this : Block) :
  (Block.hasWire this = true -> Block.hasValue this = true) /\
  (forall p, Block.wire this = ok p ->
     Block.value this = ok (m_value_begin this)) /\
  (forall p, Block.begin this = ok p ->
     Block.value_begin this = ok (m_value_begin this)) /\
  (forall p, Block.end_ this = ok p ->
     Block.value_end this = ok (m_value_end this)) /\
  (forall p, Block.wire this = ok p -> exists n, Block.size this = ok n).
Proof.
  unfold Block.wire, Block.begin, Block.end_, Block.value, Block.value_begin,
    Block.value_end, Block.size, Block.hasWire, Block.hasValue.
  destruct (m_buffer this) as [buffer|]; simpl.
  - repeat split; trivial.
    intros p _. destruct (negb _); simpl; eauto.
  - repeat split; intros; discriminate.
Qed.


(** The decoded scenario has a wire form, hence a value. *)
Lemma hasWire_implies_hasValue_witness :
  Block.hasValue scenario_wire = true /\
  Block.value scenario_wire = ok (at_pos 2).
Proof.
  split.
  - now apply (hasWire_implies_hasValue scenario_wire).
  - destruct (hasWire_implies_hasValue scenario_wire) as (_ & H & _).
    now apply (H (at_pos 0)).
Defined.
(** ** The VarNumber codec *)





Lemma length_writeVarNumber (n : N) :
  N.of_nat (length (Tlv.writeVarNumber n)) = Tlv.sizeOfVarNumber n.
Proof.
  unfold Tlv.writeVarNumber, Tlv.sizeOfVarNumber.
  destruct (n <=? 252); [reflexivity|].
  destruct (n <=? 65535); [reflexivity|].
  destruct (n <=? 4294967295); reflexivity.
Qed.




(** A successful decoding reads a prefix, and only that prefix counts. *)
Lemma decodeVarNumber_firstn (l : list byte) (v : N) (n m : nat) :
  Tlv.decodeVarNumber l = Some (v, n) ->
  (1 <= n <= length l)%nat /\
  ((n <= m)%nat -> Tlv.decodeVarNumber (firstn m l) = Some (v, n)).
Proof.
  destruct l as [|first rest]; [discriminate|].
  unfold Tlv.decodeVarNumber.
  destruct (Byte.to_N first <=? 252) eqn:E.
  - intros [= <- <-]. simpl. split; [lia|].
    intros Hm. destruct m as [|m]; [lia|]. simpl. now rewrite E.
  - set (k := if Byte.to_N first =? 253 then 2%nat
              else if Byte.to_N first =? 254 then 4%nat else 8%nat).
    destruct (Nat.ltb_spec (length rest) k) as [H|H]; [discriminate|].
    intros [= <- <-]. simpl. split; [lia|].
    intros Hm. destruct m as [|m]; [lia|]. simpl. rewrite E. fold k.
    destruct (Nat.ltb_spec (length (firstn m rest)) k) as [H'|_].
    + rewrite length_firstn in H'. lia.
    + rewrite firstn_firstn. now replace (Nat.min k m) with k by lia.
Qed.

Example writeVarNumber_boundaries :
  Tlv.writeVarNumber 252 = [xfc] /\
  Tlv.writeVarNumber 253 = [xfd; x00; xfd] /\
  Tlv.writeVarNumber 65535 = [xfd; xff; xff] /\
  Tlv.writeVarNumber 65536 = [xfe; x00; x01; x00; x00] /\
  Tlv.writeVarNumber 4294967295 = [xfe; xff; xff; xff; xff] /\
  Tlv.writeVarNumber 4294967296
    = [xff; x00; x00; x00; x01; x00; x00; x00; x00].
Proof. vm_compute. repeat split. Qed.

(** ** Slices of a buffer *)

Lemma length_slice (buffer : Buffer) (b e : nat) :
  (e <= length buffer)%nat -> length (slice buffer b e) = (e - b)%nat.
Proof.
  intros H. unfold slice. rewrite length_firstn, length_skipn. lia.
Qed.





Lemma const_iterator_eqb_refl (i : const_iterator) : const_iterator_eqb i i = true.
Proof. destruct i; simpl; trivial. apply Nat.eqb_refl. Qed.

Lemma const_iterator_eqb_eq (i j : const_iterator) :
  const_iterator_eqb i j = true <-> i = j.
Proof.
  destruct i, j; simpl; split; try discriminate; trivial.
  - intros H. apply Nat.eqb_eq in H. now subst.
  - intros [= ->]. apply Nat.eqb_refl.
Qed.

(** ** Header detection *)

Lemma decode_header_inv (tr : decode_error) (buffer : Buffer) (b e : nat) (E : Block) :
  decode_header tr buffer b e = ok E ->
  exists type n1 n2 len,
    header_at buffer b e type n1 n2 len /\ E = decoded buffer b type (n1 + n2) len.
Proof.
  unfold decode_header, Tlv.readType, Tlv.readVarNumber, ok, throw.
  destruct (Tlv.decodeVarNumber (slice buffer b e)) as [[type n1]|] eqn:E1;
    [|discriminate].
  destruct (N.leb_spec type uint32_max) as [Ht|Ht]; [|discriminate].
  destruct (Tlv.decodeVarNumber (slice buffer (b + n1) e)) as [[len n2]|] eqn:E2;
    [|discriminate].
  destruct (N.ltb_spec (N.of_nat (e - (b + n1 + n2))) len) as [Hl|Hl];
    [discriminate|].
  intros [= <-]. exists type, n1, n2, len. split.
  - now constructor.
  - unfold decoded. now rewrite Nat.add_assoc.
Qed.




(** ** [encode] *)









(** ** Reading back an encoding *)









(** ** Round trip *)





(** ** Trees of elements *)






(** ** The loop of [parse] on a sequence of encodings *)








(** ** [parse] *)

(** Fuel beyond the length of the range changes nothing: every round moves
    the cursor forward, so the loop ends before the fuel does. *)
Lemma parse_loop_fuel (fuel fuel' : nat) (buffer : Buffer) (b e : nat)
    (subBlocks : element_container) :
  (e - b <= fuel)%nat -> (e - b <= fuel')%nat ->
  parse_loop fuel buffer b e subBlocks = parse_loop fuel' buffer b e subBlocks.
Proof.
  revert fuel' b subBlocks.
  induction fuel as [|fuel IH]; intros fuel' b subBlocks H H'.
  - destruct fuel'; simpl; destruct (Nat.ltb_spec b e); trivial; lia.
  - destruct fuel' as [|fuel']; simpl; destruct (Nat.ltb_spec b e) as [Hlt|Hge];
      trivial; [lia|].
    destruct (decode_header LengthUnderrun buffer b e) as [err|child] eqn:Hd; trivial.
    apply decode_header_inv in Hd as (type & n1 & n2 & len & Hh & ->). simpl.
    destruct Hh as [E1 _ _ _].
    apply decodeVarNumber_firstn with (m := 0%nat) in E1 as [E1 _].
    apply IH; lia.
Qed.



(** ** Idempotence *)




(** * Further properties of the inline members *)

(** ** Lists of children *)

Lemma subBlocks_remove (t : N) (this : Block) :
  m_subBlocks (Block.remove t this)
  = filter (fun c => negb (Block.type c =? t)) (m_subBlocks this).
Proof. unfold Block.remove. simpl. now rewrite remove_loop_filter. Qed.

Lemma remove_set_subBlocks (t : N) (this : Block) :
  Block.remove t this
  = Block.set_subBlocks this
      (filter (fun c => negb (Block.type c =? t)) (m_subBlocks this)).
Proof. unfold Block.remove. now rewrite remove_loop_filter. Qed.

Lemma set_subBlocks_twice (this : Block) (c c' : element_container) :
  Block.set_subBlocks (Block.set_subBlocks this c) c' = Block.set_subBlocks this c'.
Proof. reflexivity. Qed.

Lemma set_subBlocks_same (this : Block) :
  Block.set_subBlocks this (m_subBlocks this) = this.
Proof. now destruct this. Qed.

Lemma same_wire_set_subBlocks (this : Block) (c : element_container) :
  same_wire (Block.set_subBlocks this c) this.
Proof. unfold same_wire. repeat split; reflexivity. Qed.

Lemma absent_filter (t : N) (l : list Block) :
  absent t (filter (fun c => negb (Block.type c =? t)) l).
Proof.
  apply absent_intro. intros c Hc. apply filter_In in Hc as [_ Hc].
  apply negb_true_iff in Hc. now apply N.eqb_neq.
Qed.

Lemma get_loop_absent (t : N) (l : list Block) :
  absent t l -> Block.get_loop t l = throw (Block.get_error t).
Proof.
  intros Habs. pose proof (get_loop_spec t l) as H.
  destruct (Block.get_loop t l) as [e|c].
  - now destruct H as [-> _].
  - destruct H as [k Hk]. destruct (first_match_absent _ _ _ _ Hk Habs).
Qed.

Lemma find_loop_absent (t : N) (i : nat) (l : list Block) :
  absent t l -> Block.find_loop t i l = None.
Proof.
  intros Habs. pose proof (find_loop_spec t l i) as H.
  destruct (Block.find_loop t i l) as [j|]; trivial.
  destruct H as (k & c & _ & Hk). destruct (first_match_absent _ _ _ _ Hk Habs).
Qed.

Lemma find_const_end_iff (t : N) (this : Block) :
  Block.find_const t this = Block.element_end this <-> absent t (m_subBlocks this).
Proof.
  unfold Block.find_const, Block.element_begin, Block.element_end.
  pose proof (find_loop_spec t (m_subBlocks this) 0%nat) as H.
  destruct (Block.find_loop t 0%nat (m_subBlocks this)) as [j|].
  - destruct H as (k & c & -> & Hk).
    pose proof (first_match_nth _ _ _ _ Hk) as [_ Hlt]. split.
    + simpl. lia.
    + intros Habs. destruct (first_match_absent _ _ _ _ Hk Habs).
  - now split.
Qed.

Lemma get_loop_app (t : N) (l l' : list Block) :
  Block.get_loop t (l ++ l')
  = match Block.get_loop t l with
    | inr c => inr c
    | inl _ => Block.get_loop t l'
    end.
Proof.
  induction l as [|x l IH]; simpl; trivial.
  now destruct (Block.type x =? t).
Qed.

Lemma find_loop_app (t : N) (i : nat) (l l' : list Block) :
  Block.find_loop t i (l ++ l')
  = match Block.find_loop t i l with
    | Some j => Some j
    | None => Block.find_loop t (i + length l)%nat l'
    end.
Proof.
  revert i. induction l as [|x l IH]; intros i; simpl.
  - now rewrite Nat.add_0_r.
  - destruct (Block.type x =? t); trivial.
    rewrite IH. now replace (S i + length l)%nat with (i + S (length l))%nat by lia.
Qed.

Lemma get_loop_filter_other (t u : N) (l : list Block) :
  u <> t ->
  Block.get_loop u (filter (fun c => negb (Block.type c =? t)) l)
  = Block.get_loop u l.
Proof.
  intros Hu. induction l as [|x l IH]; simpl; trivial.
  destruct (N.eqb_spec (Block.type x) t) as [Hx|Hx]; simpl.
  - destruct (N.eqb_spec (Block.type x) u) as [Hx'|_]; [congruence|exact IH].
  - now rewrite IH.
Qed.

Lemma filter_filter_same (f : Block -> bool) (l : list Block) :
  filter f (filter f l) = filter f l.
Proof.
  induction l as [|x l IH]; simpl; trivial.
  destruct (f x) eqn:E; simpl; rewrite ?E, IH; trivial.
Qed.

Lemma filter_filter_comm (f g : Block -> bool) (l : list Block) :
  filter f (filter g l) = filter g (filter f l).
Proof.
  induction l as [|x l IH]; simpl; trivial.
  destruct (f x) eqn:Ef, (g x) eqn:Eg; simpl; rewrite ?Ef, ?Eg, IH; trivial.
Qed.

Lemma filter_split_length (f : Block -> bool) (l : list Block) :
  (length (filter (fun c => negb (f c)) l) + length (filter f l) = length l)%nat.
Proof.
  induction l as [|x l IH]; simpl; trivial.
  destruct (f x); simpl; lia.
Qed.

(** ** [remove] and the lookups *)

(** X1: after [remove(t)] no lookup of [t] succeeds: both [get] overloads
    throw the not-found error and [find] gives the end. *)
Theorem remove_then_lookup_fails (this : Block) (t : N) :
  Block.get_const t (Block.remove t this) = throw (Block.get_error t) /\
  Block.get t (Block.remove t this)
    = (Block.remove t this, throw (Block.get_error t)) /\
  Block.find_const t (Block.remove t this)
    = Block.element_end (Block.remove t this) /\
  Block.find t (Block.remove t this)
    = (Block.remove t this, ok (Block.element_end (Block.remove t this))).
Proof.
  assert (Habs : absent t (m_subBlocks (Block.remove t this))).
  { rewrite subBlocks_remove. apply absent_filter. }
  assert (Hf : Block.find_const t (Block.remove t this)
               = Block.element_end (Block.remove t this))
    by now apply find_const_end_iff.
  unfold Block.get_const, Block.get, Block.find.
  rewrite (get_loop_absent _ _ Habs). repeat split; trivial.
  unfold Block.find_const in Hf. now rewrite Hf.
Qed.

(** X2: [remove(t)] does not change what [get(u)] returns for another type
    [u], and [find(u)] reaches the end afterwards exactly when it did
    before. *)
Theorem remove_keeps_other_lookups (this : Block) (t u : N) :
  u <> t ->
  Block.get_const u (Block.remove t this) = Block.get_const u this /\
  (Block.find_const u (Block.remove t this) = Block.element_end (Block.remove t this)
   <-> Block.find_const u this = Block.element_end this).
Proof.
  intros Hu.
  assert (Hg : Block.get_const u (Block.remove t this) = Block.get_const u this).
  { unfold Block.get_const. rewrite subBlocks_remove.
    now apply get_loop_filter_other. }
  split; trivial.
  rewrite !find_const_end_iff. unfold Block.get_const in Hg.
  pose proof (get_loop_spec u (m_subBlocks (Block.remove t this))) as H1.
  pose proof (get_loop_spec u (m_subBlocks this)) as H2.
  rewrite Hg in H1.
  destruct (Block.get_loop u (m_subBlocks this)) as [e|c].
  - destruct H1 as [_ H1], H2 as [_ H2]. now split.
  - destruct H1 as [k1 H1], H2 as [k2 H2]. split; intros Habs.
    + destruct (first_match_absent _ _ _ _ H1 Habs).
    + destruct (first_match_absent _ _ _ _ H2 Habs).
Qed.

(** In the scenario, removing type 2 leaves the child of type 1 to [get]. *)
Lemma remove_keeps_other_lookups_witness :
  Block.get_const 1 (Block.remove 2 scenario) = Block.get_const 1 scenario.
Proof.
  apply (remove_keeps_other_lookups scenario 2 1). discriminate.
Defined.

(** X3: removing a type twice is removing it once, and the order in which
    two types are removed does not matter. *)
Theorem remove_idempotent_commutes (this : Block) (t u : N) :
  Block.remove t (Block.remove t this) = Block.remove t this /\
  Block.remove t (Block.remove u this) = Block.remove u (Block.remove t this).
Proof.
  split.
  - rewrite (remove_set_subBlocks t (Block.remove t this)), subBlocks_remove.
    rewrite filter_filter_same, (remove_set_subBlocks t this).
    apply set_subBlocks_twice.
  - rewrite (remove_set_subBlocks t (Block.remove u this)), subBlocks_remove.
    rewrite (remove_set_subBlocks u (Block.remove t this)), subBlocks_remove.
    rewrite filter_filter_comm.
    now rewrite (remove_set_subBlocks u this), (remove_set_subBlocks t this).
Qed.

(** X4: [remove(t)] takes away as many children as there are of type [t],
    so the child vector never grows. *)
Theorem remove_length (this : Block) (t : N) :
  (length (Block.elements (Block.remove t this))
   + count_type t (Block.elements this)
   = length (Block.elements this))%nat /\
  (Block.element_end (Block.remove t this) <= Block.element_end this)%nat /\
  count_type t (Block.elements (Block.remove t this)) = 0%nat.
Proof.
  unfold Block.elements, Block.element_end, count_type.
  rewrite subBlocks_remove.
  pose proof (filter_split_length (fun c => Block.type c =? t) (m_subBlocks this)) as H.
  split; [exact H|split; [lia|]].
  clear H. induction (m_subBlocks this) as [|x l IH]; simpl; trivial.
  destruct (Block.type x =? t) eqn:E; simpl; [exact IH|].
  rewrite E. exact IH.
Qed.

(** ** [push_back] and the lookups *)

(** X5: appending an element does not displace a first match: [get(t)]
    returns what it returned before, and the new element only when no child
    had type [t] and the new one has; [find(t)] moves accordingly. *)
Theorem push_back_then_lookup (this element : Block) (t : N) :
  Block.get_const t (Block.push_back element this)
    = match Block.get_const t this with
      | inr c => ok c
      | inl e => if Block.type element =? t then ok element else throw e
      end /\
  Block.find_const t (Block.push_back element this)
    = (if (Block.find_const t this <? Block.element_end this)%nat
       then Block.find_const t this
       else if Block.type element =? t then Block.element_end this
            else Block.element_end (Block.push_back element this)) /\
  Block.element_end (Block.push_back element this) = S (Block.element_end this).
Proof.
  unfold Block.get_const, Block.find_const, Block.element_begin, Block.element_end,
    Block.push_back, ok, throw.
  simpl. rewrite get_loop_app, find_loop_app, length_app. simpl.
  split; [|split; [|lia]].
  - pose proof (get_loop_spec t (m_subBlocks this)) as H.
    destruct (Block.get_loop t (m_subBlocks this)) as [e|c]; trivial.
    destruct H as [-> _]. now destruct (Block.type element =? t).
  - pose proof (find_loop_spec t (m_subBlocks this) 0%nat) as H.
    destruct (Block.find_loop t 0%nat (m_subBlocks this)) as [j|].
    + destruct H as (k & c & -> & Hk).
      pose proof (first_match_nth _ _ _ _ Hk) as [_ Hlt]. simpl.
      destruct (Nat.ltb_spec k (length (m_subBlocks this))); [trivial|lia].
    + rewrite Nat.ltb_irrefl.
      destruct (Block.type element =? t); trivial.
Qed.

(** X6: [remove(t)] after [push_back(element)] drops the new element when it
    has type [t], and otherwise commutes with the append. *)
Theorem push_back_then_remove (this element : Block) (t : N) :
  Block.remove t (Block.push_back element this)
  = if Block.type element =? t then Block.remove t this
    else Block.push_back element (Block.remove t this).
Proof.
  rewrite (remove_set_subBlocks t (Block.push_back element this)).
  rewrite (remove_set_subBlocks t this).
  unfold Block.push_back. simpl. rewrite filter_app. simpl.
  destruct (Block.type element =? t); simpl.
  - now rewrite app_nil_r.
  - reflexivity.
Qed.

(** ** [erase] *)

Lemma firstn_skipn_middle (pre post : list Block) (c : Block) :
  firstn (length pre) (pre ++ c :: post) ++ skipn (S (length pre)) (pre ++ c :: post)
  = pre ++ post.
Proof.
  assert (Hs : skipn (S (length pre)) (pre ++ c :: post) = post).
  { replace (pre ++ c :: post) with ((pre ++ [c]) ++ post)
      by now rewrite <- app_assoc.
    replace (S (length pre)) with (length (pre ++ [c]))
      by (rewrite length_app; simpl; lia).
    now rewrite skipn_app, skipn_all, Nat.sub_diag. }
  rewrite Hs, firstn_app, Nat.sub_diag, firstn_all. cbn [firstn].
  now rewrite app_nil_r.
Qed.

(** X7: erasing at a position of the vector shortens it by one, keeps the
    children before the position where they were, moves each later child
    one place down, and returns the position itself. *)
Theorem erase_position (this : Block) (position : element_iterator) :
  (position < Block.element_end this)%nat ->
  snd (Block.erase position this) = position /\
  S (length (Block.elements (fst (Block.erase position this))))
    = length (Block.elements this) /\
  (forall i, (i < position)%nat ->
     nth_error (Block.elements (fst (Block.erase position this))) i
     = nth_error (Block.elements this) i) /\
  (forall i, (position <= i)%nat ->
     nth_error (Block.elements (fst (Block.erase position this))) i
     = nth_error (Block.elements this) (S i)).
Proof.
  unfold Block.element_end, Block.elements, Block.erase.
  cbn [fst snd m_subBlocks Block.set_subBlocks]. intros Hp.
  assert (Hl : length (firstn position (m_subBlocks this)) = position)
    by (rewrite length_firstn; lia).
  repeat split.
  - rewrite length_app, Hl, length_skipn. lia.
  - intros i Hi. rewrite nth_error_app1 by lia.
    rewrite nth_error_firstn. now destruct (Nat.ltb_spec i position); [|lia].
  - intros i Hi. rewrite nth_error_app2 by lia.
    rewrite Hl, nth_error_skipn. f_equal. lia.
Qed.

(** Erasing the first child of the scenario leaves the second in its place. *)
Lemma erase_position_witness :
  nth_error (Block.elements (fst (Block.erase 0%nat scenario))) 0%nat
  = nth_error (Block.elements scenario) 1%nat.
Proof.
  destruct (erase_position scenario 0%nat) as (_ & _ & _ & H).
  - unfold Block.element_end. simpl. lia.
  - apply H. lia.
Defined.

(** X8: erasing at [find(t)] when [get(t)] returns takes out the first child
    of type [t] and nothing else: the children before and after it stay in
    order, one child of type [t] less is left, and a later [remove(t)]
    gives what it would have given without the erasure. *)
Theorem erase_found (this : Block) (t : N) (c : Block) :
  Block.get_const t this = ok c ->
  exists pre post,
    Block.elements this = pre ++ c :: post /\
    absent t pre /\
    Block.erase (Block.find_const t this) this
      = (Block.set_subBlocks this (pre ++ post), length pre) /\
    S (count_type t (pre ++ post)) = count_type t (Block.elements this) /\
    Block.remove t (fst (Block.erase (Block.find_const t this) this))
      = Block.remove t this.
Proof.
  unfold Block.get_const, Block.find_const, Block.element_begin, Block.elements, ok.
  intros Hg.
  pose proof (get_loop_spec t (m_subBlocks this)) as H. rewrite Hg in H.
  destruct H as [k Hk].
  pose proof (find_loop_spec t (m_subBlocks this) 0%nat) as H'.
  destruct (Block.find_loop t 0%nat (m_subBlocks this)) as [j|];
    [|destruct (first_match_absent _ _ _ _ Hk H')].
  destruct H' as (k' & c' & -> & Hk').
  destruct (first_match_unique _ _ _ _ _ _ Hk Hk') as [<- <-]. cbn [Nat.add].
  destruct Hk as (pre & post & Hl & <- & Hc & Hpre).
  exists pre, post.
  assert (Herase : Block.erase (length pre) this
                   = (Block.set_subBlocks this (pre ++ post), length pre)).
  { unfold Block.erase. now rewrite Hl, firstn_skipn_middle. }
  apply N.eqb_eq in Hc.
  split; [exact Hl|split; [exact Hpre|split; [exact Herase|split]]].
  - rewrite Hl. unfold count_type. rewrite !filter_app, !length_app. simpl.
    rewrite Hc. simpl. lia.
  - rewrite Herase. cbn [fst].
    rewrite (remove_set_subBlocks t (Block.set_subBlocks this (pre ++ post))).
    rewrite (remove_set_subBlocks t this), Hl, set_subBlocks_twice.
    cbn [m_subBlocks Block.set_subBlocks].
    rewrite !filter_app. simpl. now rewrite Hc.
Qed.

(** In the scenario, erasing at [find(1)] leaves the child of type 2. *)
Lemma erase_found_witness :
  exists pre post,
    Block.elements scenario = pre ++ Block_type_value 1 [x01; x02; x03] :: post /\
    absent 1 pre /\
    Block.erase (Block.find_const 1 scenario) scenario
      = (Block.set_subBlocks scenario (pre ++ post), length pre) /\
    S (count_type 1 (pre ++ post)) = count_type 1 (Block.elements scenario) /\
    Block.remove 1 (fst (Block.erase (Block.find_const 1 scenario) scenario))
      = Block.remove 1 scenario.
Proof.
  apply (erase_found scenario 1). reflexivity.
Defined.

(** X9: erasing a range of the vector takes out as many children as the
    range holds, keeps the children before it where they were, moves the
    later ones down by the size of the range, and returns its start. *)
Theorem erase_range_positions (this : Block) (first last : element_iterator) :
  (first <= last)%nat ->
  (last <= Block.element_end this)%nat ->
  snd (Block.erase_range first last this) = first /\
  (length (Block.elements (fst (Block.erase_range first last this)))
   + (last - first) = length (Block.elements this))%nat /\
  (forall i, (i < first)%nat ->
     nth_error (Block.elements (fst (Block.erase_range first last this))) i
     = nth_error (Block.elements this) i) /\
  (forall i, (first <= i)%nat ->
     nth_error (Block.elements (fst (Block.erase_range first last this))) i
     = nth_error (Block.elements this) (i + (last - first))).
Proof.
  unfold Block.element_end, Block.elements, Block.erase_range.
  cbn [fst snd m_subBlocks Block.set_subBlocks]. intros Hfl Hl.
  assert (Hf : length (firstn first (m_subBlocks this)) = first)
    by (rewrite length_firstn; lia).
  repeat split.
  - rewrite length_app, Hf, length_skipn. lia.
  - intros i Hi. rewrite nth_error_app1 by lia.
    rewrite nth_error_firstn. now destruct (Nat.ltb_spec i first); [|lia].
  - intros i Hi. rewrite nth_error_app2 by lia.
    rewrite Hf, nth_error_skipn. f_equal. lia.
Qed.

(** Erasing both children of the scenario. *)
Lemma erase_range_positions_witness :
  (length (Block.elements (fst (Block.erase_range 0%nat 2%nat scenario))) + (2 - 0)
   = length (Block.elements scenario))%nat.
Proof.
  destruct (erase_range_positions scenario 0%nat 2%nat) as (_ & H & _).
  - lia.
  - unfold Block.element_end. simpl. lia.
  - exact H.
Defined.

(** X10: an empty range erases nothing, the range from [element_begin()] to
    [element_end()] erases every child, and erasing one position is erasing
    the range of that position alone. *)
Theorem erase_range_cases (this : Block) (position : element_iterator) :
  Block.erase_range position position this = (this, position) /\
  Block.elements
    (fst (Block.erase_range (Block.element_begin this) (Block.element_end this) this))
    = [] /\
  Block.erase position this = Block.erase_range position (S position) this.
Proof.
  unfold Block.erase_range, Block.erase, Block.elements, Block.element_begin,
    Block.element_end.
  split; [|split].
  - now rewrite firstn_skipn, set_subBlocks_same.
  - simpl. apply skipn_all.
  - reflexivity.
Qed.

(** ** Mutations of the children and the buffer *)

(** X11: [remove] and both [erase] overloads change the children only: the
    type, the buffer, the ranges and the size stay as they were, so every
    buffer accessor answers as before the call. *)
Theorem child_mutators_keep_wire (this : Block) (t : N)
    (position first last : element_iterator) :
  same_wire (Block.remove t this) this /\
  same_wire (fst (Block.erase position this)) this /\
  same_wire (fst (Block.erase_range first last this)) this.
Proof.
  rewrite (remove_set_subBlocks t this).
  unfold Block.erase, Block.erase_range. simpl.
  repeat split; reflexivity.
Qed.

(** X12: [reset()] is idempotent and forgets the children whatever was done
    to them; on a reset element [size()] and every buffer accessor throw,
    [value_size()] is 0, and no lookup succeeds. *)
Theorem reset_then_accessors (this element : Block) (t : N) :
  Block.reset (Block.reset this) = Block.reset this /\
  Block.reset (Block.push_back element this) = Block.reset this /\
  Block.reset (Block.remove t this) = Block.reset this /\
  (exists e, Block.size (Block.reset this) = throw e) /\
  (exists e, Block.wire (Block.reset this) = throw e) /\
  (exists e, Block.begin (Block.reset this) = throw e) /\
  (exists e, Block.end_ (Block.reset this) = throw e) /\
  (exists e, Block.value (Block.reset this) = throw e) /\
  (exists e, Block.value_begin (Block.reset this) = throw e) /\
  (exists e, Block.value_end (Block.reset this) = throw e) /\
  Block.value_size (Block.reset this) = 0 /\
  Block.get_const t (Block.reset this) = throw (Block.get_error t) /\
  Block.find_const t (Block.reset this) = Block.element_end (Block.reset this) /\
  Block.element_end (Block.reset this) = Block.element_begin (Block.reset this).
Proof.
  rewrite (remove_set_subBlocks t this).
  unfold Block.reset, Block.push_back, Block.set_subBlocks. simpl.
  repeat split; try reflexivity; eexists; reflexivity.
Qed.

(** ** The wire range *)

(** X13: [begin()], [end()] and [wire()] return together, [wire()] gives the
    position [begin()] gives, and the positions that [begin()] and [end()]
    return are never equal. *)
Theorem wire_range_not_empty (this : Block) :
  (forall p q, Block.begin this = ok p -> Block.end_ this = ok q -> p <> q) /\
  (forall p, Block.wire this = ok p <-> Block.begin this = ok p) /\
  ((exists p, Block.begin this = ok p) <-> (exists q, Block.end_ this = ok q)) /\
  ((exists p, Block.begin this = ok p) <-> Block.hasWire this = true).
Proof.
  unfold Block.begin, Block.end_, Block.wire, ok, throw.
  destruct (Block.hasWire this) eqn:Hw; simpl.
  - repeat split; trivial; try (intros _; eexists; reflexivity).
    intros p q [= <-] [= <-] Heq.
    unfold Block.hasWire in Hw. destruct (m_buffer this); [|discriminate].
    apply negb_true_iff in Hw. apply const_iterator_eqb_eq in Heq. congruence.
  - repeat split; try discriminate; intros [p Hp]; discriminate.
Qed.

(** X14: [size()] returns exactly when [value()] does, that is when the
    element has a buffer: the test of the wire range in [size()] adds no
    case. *)
Theorem size_iff_value (this : Block) :
  ((exists n, Block.size this = ok n) <-> Block.hasValue this = true) /\
  ((exists n, Block.size this = ok n) <-> (exists p, Block.value this = ok p)) /\
  ((exists e, Block.size this = throw e) <-> (exists e, Block.value this = throw e)).
Proof.
  unfold Block.size, Block.value, Block.hasWire, Block.hasValue, ok, throw.
  destruct (m_buffer this); simpl.
  - rewrite orb_true_r.
    repeat split; trivial; try (intros _; eexists; reflexivity);
      intros [e He]; discriminate.
  - repeat split; try discriminate; try (intros _; eexists; reflexivity);
      intros [e He]; discriminate.
Qed.

(** X15: for an element whose value range lies in order inside its buffer,
    [value_size()] is the number of bytes of the range. *)
Theorem value_size_bytes (this : Block) (buffer : Buffer) (b e : nat) :
  m_buffer this = Some buffer ->
  m_value_begin this = at_pos b ->
  m_value_end this = at_pos e ->
  (b <= e <= length buffer)%nat ->
  N.of_nat e < 2 ^ 64 ->
  Block.value_size this = N.of_nat (length (slice buffer b e)) /\
  Block.value_size this = N.of_nat (e - b).
Proof.
  intros Hb Hvb Hve Hr He.
  unfold Block.value_size, Block.hasValue, const_iterator_diff.
  rewrite Hb, Hvb, Hve. cbn [negb]. rewrite length_slice by lia.
  rewrite Z.mod_small by lia.
  split; lia.
Qed.

(** The decoded scenario: seven bytes of value. *)
Lemma value_size_bytes_witness :
  Block.value_size scenario_wire = 7.
Proof.
  apply (value_size_bytes scenario_wire
           [x05; x07; x01; x03; x01; x02; x03; x02; x00] 2 9);
    try reflexivity; simpl; lia.
Defined.

(** ** Presence tests *)

(** X16: [empty()] looks at the type only: it holds exactly for the
    sentinel type, and it goes on holding when children are appended to a
    reset element, which then is [empty()] and has a child. *)
Theorem empty_ignores_children (this element : Block) :
  (Block.empty this = true <-> Block.type this = uint32_max) /\
  Block.empty (Block.push_back element this) = Block.empty this /\
  Block.empty (Block.push_back element (Block.reset this)) = true /\
  Block.elements (Block.push_back element (Block.reset this)) = [element] /\
  Block.get_const (Block.type element) (Block.push_back element (Block.reset this))
    = ok element.
Proof.
  unfold Block.empty, Block.type, Block.elements, Block.get_const,
    Block.push_back, Block.reset.
  cbn [m_type m_subBlocks Block.set_subBlocks app Block.get_loop].
  unfold Block.type. rewrite !N.eqb_refl.
  repeat split; trivial; apply N.eqb_eq.
Qed.

(** X17: an element with a buffer whose wire range is degenerate has a value
    and no wire form: the value accessors and [size()] return while
    [wire()], [begin()] and [end()] throw. *)
Theorem value_without_wire (this : Block) (buffer : Buffer) :
  m_buffer this = Some buffer ->
  m_begin this = m_end this ->
  Block.hasValue this = true /\
  Block.hasWire this = false /\
  Block.value this = ok (m_value_begin this) /\
  Block.value_begin this = ok (m_value_begin this) /\
  Block.value_end this = ok (m_value_end this) /\
  Block.size this = ok (m_size this) /\
  Block.wire this = throw (Error "(Block::wire) Underlying wire buffer is empty") /\
  Block.begin this = throw (Error "Underlying wire buffer is empty") /\
  Block.end_ this = throw (Error "Underlying wire buffer is empty").
Proof.
  intros Hb He.
  assert (Hv : Block.hasValue this = true)
    by (unfold Block.hasValue; now rewrite Hb).
  assert (Hw : Block.hasWire this = false).
  { unfold Block.hasWire. rewrite Hb, He.
    now rewrite const_iterator_eqb_refl. }
  unfold Block.value, Block.value_begin, Block.value_end, Block.size,
    Block.wire, Block.begin, Block.end_.
  rewrite Hv, Hw. repeat split; reflexivity.
Qed.

(** A value buffer of three bytes under type 1. *)
Lemma value_without_wire_witness :
  Block.hasValue (Block_type_value 1 [x01; x02; x03]) = true /\
  Block.hasWire (Block_type_value 1 [x01; x02; x03]) = false.
Proof.
  destruct (value_without_wire (Block_type_value 1 [x01; x02; x03])
              [x01; x02; x03] eq_refl eq_refl) as (H1 & H2 & _).
  now split.
Defined.
